(** * Anagram finder: a shallow embedding of [anagram/anagram.py]

    The module has four functions: [load_words_file] (a generator over the
    lines of a file), [get_permutations], [sort_word] and [find_anagrams]
    (a generator over the matching candidates).

    Strings are Python 2 byte strings ([str]), modelled as [string]; the
    characters of a word are [ascii] values ordered by their code point. *)

From Stdlib Require Import Ascii String NArith Factorial.
From stdpp Require Import gmap strings list sorting.

(** ** Values, exceptions and results *)

(** The dynamically typed values that reach the functions of the module:
    [None], a [str], or something that is neither (an [int]). *)
Inductive pyval :=
| PyNone
| PyStr (s : string)
| PyInt (n : Z).

#[global] Instance pyval_eq_dec : EqDecision pyval.
Proof. solve_decision. Defined.

Inductive exn := TypeError | ValueError | IOError.

#[global] Instance exn_eq_dec : EqDecision exn.
Proof. solve_decision. Defined.

(** A call either returns a value or raises. *)
Inductive result (A : Type) :=
| Ok (a : A)
| Raise (e : exn).
Arguments Ok {A} a.
Arguments Raise {A} e.

#[global] Instance result_ret : MRet result := λ A a, Ok a.
#[global] Instance result_bind : MBind result := λ A B k r,
  match r with
  | Ok a => k a
  | Raise e => Raise e
  end.

(** ** Built-ins used by the module *)

(** [ord c]: the code point of a character. *)
Definition ord (c : ascii) : N := N_of_ascii c.

(** The order [sorted] uses on one-character strings. *)
Definition char_le (a b : ascii) : Prop := (ord a ≤ ord b)%N.

#[global] Instance char_le_dec : RelDecision char_le.
Proof. intros a b. unfold char_le. apply _. Defined.

(** [sorted(word)]: the list of the characters of [word], ascending. *)
Definition sorted (word : string) : list ascii :=
  merge_sort char_le (list_ascii_of_string word).

(** [''.join(chars)]. *)
Definition join (chars : list ascii) : string := string_of_list_ascii chars.

(** [len(x)]: defined on strings only. *)
Definition len (x : pyval) : result nat :=
  match x with
  | PyStr s => Ok (String.length s)
  | _ => Raise TypeError
  end.

(** Truth value of an object in a condition: [None], [''] and [0] are false. *)
Definition truthy (x : pyval) : bool :=
  match x with
  | PyNone => false
  | PyStr s => negb (String.eqb s "")
  | PyInt n => negb (n =? 0)%Z
  end.

(** ** [sort_word] *)

Definition sort_word (word : pyval) : result pyval :=
  match word with
  | PyNone => Ok PyNone
  | PyStr w => Ok (PyStr (join (sorted w)))
  | PyInt _ => Raise TypeError
  end.

(** ** Generators

    A function whose body contains [yield] returns a generator object when
    it is called; none of its body runs before the first [next].  A
    generator is modelled by its suspended state and a [next] function. *)

Inductive outcome (S : Type) :=
| Yielded (v : pyval) (s : S)   (* suspended again at a [yield] *)
| Stopped                       (* the body returned: [StopIteration] *)
| Raised (e : exn).             (* the body raised [e] *)
Arguments Yielded {S} v s.
Arguments Stopped {S}.
Arguments Raised {S} e.

(** How a consumer such as [list(g)] or a [for] loop ends. *)
Inductive ending := Exhausted | Failed (e : exn).

#[global] Instance ending_eq_dec : EqDecision ending.
Proof. solve_decision. Defined.

(** [collect next fuel s]: call [next] until the generator stops or raises;
    the values produced so far and how the iteration ended. *)
Fixpoint collect {S} (next : S → outcome S) (fuel : nat) (s : S)
  : option (list pyval * ending) :=
  match fuel with
  | O => None
  | S fuel' =>
      match next s with
      | Yielded v s' =>
          match collect next fuel' s' with
          | Some (vs, e) => Some (v :: vs, e)
          | None => None
          end
      | Stopped => Some ([], Exhausted)
      | Raised e => Some ([], Failed e)
      end
  end.

(** ** [find_anagrams]

    [valid_words] is [None] or a list of candidates.  The generator is
    either not started yet (it holds its arguments), suspended at the
    [yield] (it holds [word], [sorted_base] and the candidates the loop
    has not reached), or finished. *)

Inductive fa_state :=
| FaCreated (word : pyval) (valid_words : option (list pyval))
| FaSuspended (word sorted_base : pyval) (rest : list pyval)
| FaFinished.

(** Calling the generator function only builds the generator object. *)
Definition find_anagrams (word : pyval) (valid_words : option (list pyval))
  : result fa_state :=
  Ok (FaCreated word valid_words).

(** The condition of the generator expression:
    [w and len(w) == len(word)]. *)
Definition fa_keep (word w : pyval) : result bool :=
  if truthy w then
    lw ← len w; lword ← len word; Ok (lw =? lword)
  else Ok false.

(** The [for w in filtered_words] loop, from the items of [valid_words]
    not yet consumed up to the next [yield]. *)
Fixpoint fa_loop (word sorted_base : pyval) (items : list pyval)
  : outcome fa_state :=
  match items with
  | [] => Stopped
  | w :: rest =>
      match fa_keep word w with
      | Raise e => Raised e
      | Ok false => fa_loop word sorted_base rest
      | Ok true =>
          match sort_word w with
          | Raise e => Raised e
          | Ok sw =>
              if decide (sw = sorted_base)
              then Yielded w (FaSuspended word sorted_base rest)
              else fa_loop word sorted_base rest
          end
      end
  end.

Definition fa_next (st : fa_state) : outcome fa_state :=
  match st with
  | FaCreated word valid_words =>
      match word, valid_words with
      | PyNone, _ | _, None => Raised ValueError
      | _, Some items =>
          match sort_word word with
          | Raise e => Raised e
          | Ok sorted_base => fa_loop word sorted_base items
          end
      end
  | FaSuspended word sorted_base rest => fa_loop word sorted_base rest
  | FaFinished => Stopped
  end.

(** ** [load_words_file]

    A file is its content; iterating over it reads one line at a time, a
    line ending with its LF.  The generator is either not started yet (the
    file is not opened), suspended at the [yield] (it holds the unread part
    of the file), or finished. *)

Definition newline : ascii := ascii_of_nat 10.

(** [str.isspace] on one byte: tab, LF, VT, FF, CR and space. *)
Definition isspace (c : ascii) : bool :=
  ((9 <=? ord c)%N && (ord c <=? 13)%N) || (ord c =? 32)%N.

(** [line.rstrip()]: the line without its trailing whitespace. *)
Fixpoint rstrip (s : string) : string :=
  match s with
  | EmptyString => EmptyString
  | String c s' =>
      match rstrip s' with
      | EmptyString => if isspace c then EmptyString else String c EmptyString
      | r => String c r
      end
  end.

(** [f.readline()] from the unread part of the file: the next line, with
    its newline when it has one, and what is left to read. *)
Fixpoint readline (s : string) : string * string :=
  match s with
  | EmptyString => (EmptyString, EmptyString)
  | String c s' =>
      if Ascii.eqb c newline then (String c EmptyString, s')
      else let '(l, r) := readline s' in (String c l, r)
  end.

Inductive lw_state :=
| LwCreated (filepath : string)
| LwReading (unread : string)
| LwFinished.

Definition load_words_file (filepath : string) : result lw_state :=
  Ok (LwCreated filepath).

(** [for line in f: yield line.rstrip()]. *)
Definition lw_loop (unread : string) : outcome lw_state :=
  match unread with
  | EmptyString => Stopped
  | _ => let '(line, rest) := readline unread in
         Yielded (PyStr (rstrip line)) (LwReading rest)
  end.

(** The file system maps the paths that can be opened to their contents. *)
Definition lw_next (fs : gmap string string) (st : lw_state)
  : outcome lw_state :=
  match st with
  | LwCreated filepath =>
      match fs !! filepath with
      | None => Raised IOError
      | Some content => lw_loop content
      end
  | LwReading unread => lw_loop unread
  | LwFinished => Stopped
  end.

(** ** [get_permutations] *)

Module itertools.

(** Every way to take one element out of the pool, leftmost first. *)
Fixpoint picks {A} (pool : list A) : list (A * list A) :=
  match pool with
  | [] => []
  | x :: pool' => (x, pool') :: (prod_map id (cons x) <$> picks pool')
  end.

(** The [r]-length arrangements of the pool, in the order of positions. *)
Fixpoint arrangements {A} (r : nat) (pool : list A) : list (list A) :=
  match r with
  | O => [[]]
  | S r' => '(x, rest) ← picks pool; cons x <$> arrangements r' rest
  end.

(** [permutations(iterable)], with [r] defaulting to the pool's length. *)
Definition permutations {A} (pool : list A) : list (list A) :=
  arrangements (length pool) pool.

End itertools.

Definition get_permutations (word : pyval) : result (option (gset string)) :=
  match word with
  | PyNone => Ok None
  | PyStr w =>
      Ok (Some (list_to_set
                  (join <$> itertools.permutations (list_ascii_of_string w))))
  | PyInt _ => Raise TypeError
  end.

(** ** [find_anagrams] over an iterator

    The script passes the generator of [load_words_file] as [valid_words]:
    the loop then pulls its candidates one at a time from that source,
    which may itself raise.  A pull that skips candidates for ever does
    not return: the loop carries fuel, one unit per candidate pulled. *)

Inductive fai_state (S : Type) :=
| FaiCreated (word : pyval) (valid_words : option S)
| FaiSuspended (word sorted_base : pyval) (source : S)
| FaiFinished.
Arguments FaiCreated {S} word valid_words.
Arguments FaiSuspended {S} word sorted_base source.
Arguments FaiFinished {S}.

Definition find_anagrams_over {S} (word : pyval) (valid_words : option S)
  : result (fai_state S) :=
  Ok (FaiCreated word valid_words).

Fixpoint fai_loop {S} (src_next : S → outcome S) (fuel : nat)
    (word sorted_base : pyval) (source : S)
  : option (outcome (fai_state S)) :=
  match fuel with
  | O => None
  | S fuel' =>
      match src_next source with
      | Stopped => Some Stopped
      | Raised e => Some (Raised e)
      | Yielded w source' =>
          match fa_keep word w with
          | Raise e => Some (Raised e)
          | Ok false => fai_loop src_next fuel' word sorted_base source'
          | Ok true =>
              match sort_word w with
              | Raise e => Some (Raised e)
              | Ok sw =>
                  if decide (sw = sorted_base)
                  then Some (Yielded w
                               (FaiSuspended word sorted_base source'))
                  else fai_loop src_next fuel' word sorted_base source'
              end
          end
      end
  end.

Definition fai_next {S} (src_next : S → outcome S) (fuel : nat)
    (st : fai_state S) : option (outcome (fai_state S)) :=
  match st with
  | FaiCreated word valid_words =>
      match word, valid_words with
      | PyNone, _ | _, None => Some (Raised ValueError)
      | _, Some source =>
          match sort_word word with
          | Raise e => Some (Raised e)
          | Ok sorted_base => fai_loop src_next fuel word sorted_base source
          end
      end
  | FaiSuspended word sorted_base source =>
      fai_loop src_next fuel word sorted_base source
  | FaiFinished => Some Stopped
  end.

(** [iter(l)] for a list [l]: the items not reached yet. *)
Definition list_next (items : list pyval) : outcome (list pyval) :=
  match items with
  | [] => Stopped
  | w :: rest => Yielded w rest
  end.

(** [for x in g: print x]: the objects printed, one per line, and how the
    loop ended. *)
Fixpoint print_all {S} (next : S → option (outcome S)) (fuel : nat) (s : S)
  : option (list pyval * ending) :=
  match fuel with
  | O => None
  | S fuel' =>
      match next s with
      | None => None
      | Some (Yielded v s') =>
          match print_all next fuel' s' with
          | Some (vs, e) => Some (v :: vs, e)
          | None => None
          end
      | Some Stopped => Some ([], Exhausted)
      | Some (Raised e) => Some ([], Failed e)
      end
  end.

(** ** The script [scripts/find_anagrams.py] *)

Definition indent : string := "        ".

Definition usage_msg : string :=
  String newline (indent +:+ "Invalid arguments specified." +:+
  String newline (indent +:+ "Usage:" +:+
  String newline (indent +:+ "python find_anagrams.py <word> <filepath>" +:+
  String newline indent))).

(** [main(word, filepath)]: what is printed, and how the run ended (an
    exception that escapes ends the run). *)
Definition main (fs : gmap string string) (fuel : nat)
    (word filepath : string) : option (list pyval * ending) :=
  match load_words_file filepath with
  | Raise e => Some ([], Failed e)
  | Ok valid_words =>
      match find_anagrams_over (PyStr word) (Some valid_words) with
      | Raise e => Some ([], Failed e)
      | Ok anagrams => print_all (fai_next (lw_next fs) fuel) fuel anagrams
      end
  end.

(** The [__main__] block, on [sys.argv]. *)
Definition script (fs : gmap string string) (fuel : nat) (argv : list string)
  : option (list pyval * ending) :=
  match argv with
  | [_; word; filepath] => main fs fuel word filepath
  | _ => Some ([PyStr usage_msg], Exhausted)
  end.

(** ** Vocabulary of the properties *)

(** The lines a file object iterates over: each ends with its newline,
    except a last line that the file leaves unterminated. *)
Fixpoint file_lines (content : string) : list string :=
  match content with
  | EmptyString => []
  | String c rest =>
      if Ascii.eqb c newline then String c EmptyString :: file_lines rest
      else match file_lines rest with
           | [] => [String c EmptyString]
           | l :: ls => String c l :: ls
           end
  end.

Definition no_newline (s : string) : Prop :=
  newline ∉ list_ascii_of_string s.

(** A line closed by a newline, and a last line without one. *)
Definition terminated (l : string) : Prop :=
  ∃ body, l = body +:+ String newline EmptyString ∧ no_newline body.

Definition unterminated (l : string) : Prop :=
  l ≠ EmptyString ∧ no_newline l.

(** [s] has no whitespace at its end. *)
Definition no_trailing_space (s : string) : Prop :=
  ∀ p c, s = p +:+ String c EmptyString → isspace c = false.

(** A candidate that is a string of the target's length with the target's
    sorted characters. *)
Definition anagram_of (word : string) (c : pyval) : bool :=
  match c with
  | PyStr s =>
      (String.length s =? String.length word)
      && bool_decide (sorted s = sorted word)
  | _ => false
  end.

(** The same, for candidates that are not the empty string. *)
Definition nonempty_anagram_of (word : string) (c : pyval) : bool :=
  match c with
  | PyStr s => negb (String.eqb s "") && anagram_of word c
  | _ => false
  end.

(** A candidate that is a word or [None]. *)
Definition word_or_none (c : pyval) : Prop :=
  match c with
  | PyInt _ => False
  | _ => True
  end.

(** A candidate that is a non-empty string of the set [perms]. *)
Definition nonempty_member (perms : gset string) (c : pyval) : bool :=
  match c with
  | PyStr s => negb (String.eqb s "") && bool_decide (s ∈ perms)
  | _ => false
  end.

(** * Properties *)

(** ** The doctests and tests of the module *)

Example sort_word_time : sort_word (PyStr "time") = Ok (PyStr "eimt").
Proof. vm_compute. reflexivity. Qed.

Example sort_word_digits : sort_word (PyStr "4321") = Ok (PyStr "1234").
Proof. vm_compute. reflexivity. Qed.

Example permutations_abc :
  join <$> itertools.permutations (list_ascii_of_string "abc")
  = ["abc"; "acb"; "bac"; "bca"; "cab"; "cba"].
Proof. reflexivity. Qed.

Example find_time :
  collect fa_next 6 (FaCreated (PyStr "time")
     (Some [PyStr "emit"; PyStr "time"; PyStr "mite"; PyStr "car"; PyNone]))
  = Some ([PyStr "emit"; PyStr "time"; PyStr "mite"], Exhausted).
Proof. vm_compute. reflexivity. Qed.

(** ** Strings and their characters *)

Lemma length_list_ascii_of_string (s : string) :
  length (list_ascii_of_string s) = String.length s.
Proof. induction s as [|c s IH]; simpl; congruence. Qed.

Lemma chars_join (l : list ascii) : list_ascii_of_string (join l) = l.
Proof. apply list_ascii_of_string_of_list_ascii. Qed.

Lemma join_chars (s : string) : join (list_ascii_of_string s) = s.
Proof. apply string_of_list_ascii_of_string. Qed.

(** ** The code point order *)

#[global] Instance char_le_total : Total char_le.
Proof. intros a b. unfold char_le. lia. Qed.

#[global] Instance char_le_trans : Transitive char_le.
Proof. intros a b c. unfold char_le. lia. Qed.

#[global] Instance char_le_antisymm : AntiSymm (=) char_le.
Proof.
  intros a b Hab Hba. unfold char_le, ord in *.
  rewrite <- (ascii_N_embedding a), <- (ascii_N_embedding b).
  f_equal. lia.
Qed.

Lemma sorted_Permutation (w : string) : sorted w ≡ₚ list_ascii_of_string w.
Proof. apply merge_sort_Permutation. Qed.

Lemma sorted_Sorted (w : string) : Sorted char_le (sorted w).
Proof. apply (Sorted_merge_sort char_le). Qed.

Lemma sorted_perm_invariant (v w : string) :
  list_ascii_of_string v ≡ₚ list_ascii_of_string w → sorted v = sorted w.
Proof.
  intros Hp. apply (Sorted_unique char_le); try apply sorted_Sorted.
  by rewrite !sorted_Permutation.
Qed.

Lemma sorted_join_sorted (w : string) : sorted (join (sorted w)) = sorted w.
Proof.
  apply sorted_perm_invariant. rewrite chars_join. apply sorted_Permutation.
Qed.

(** ** [sort_word] *)

(** C3: for every string [w], [sort_word w] returns a string with the same
    multiset of characters as [w] (a permutation of them), arranged in
    ascending code point order, and of the same length as [w]. *)
Theorem sort_word_sorted_permutation (w : string) :
  ∃ s, sort_word (PyStr w) = Ok (PyStr s)
       ∧ list_ascii_of_string s ≡ₚ list_ascii_of_string w
       ∧ Sorted char_le (list_ascii_of_string s)
       ∧ String.length s = String.length w.
Proof.
  exists (join (sorted w)). split; [reflexivity|].
  rewrite <- !length_list_ascii_of_string, chars_join.
  split_and!.
  - apply sorted_Permutation.
  - apply sorted_Sorted.
  - by rewrite sorted_Permutation.
Qed.

(** C8: [sort_word] is idempotent: sorting the result of [sort_word w]
    again gives the result of [sort_word w]. *)
Theorem sort_word_idempotent (w : string) :
  sort_word (PyStr w) ≫= sort_word = sort_word (PyStr w).
Proof. simpl. unfold mbind, result_bind. by rewrite sorted_join_sorted. Qed.

(** C6: [sort_word(None)] returns [None], and every input that is neither
    [None] nor a string makes [sort_word] raise [TypeError]. *)
Theorem sort_word_none_and_bad_input :
  sort_word PyNone = Ok PyNone
  ∧ ∀ v, v ≠ PyNone → (∀ s, v ≠ PyStr s) → sort_word v = Raise TypeError.
Proof.
  split; [reflexivity|].
  intros [|s|n] Hnone Hstr; [done| |done].
  by destruct (Hstr s).
Qed.

Lemma sort_word_none_and_bad_input_witness :
  sort_word PyNone = Ok PyNone ∧ sort_word (PyInt 1234) = Raise TypeError.
Proof.
  split.
  - apply sort_word_none_and_bad_input.
  - apply (proj2 sort_word_none_and_bad_input (PyInt 1234)); discriminate.
Defined.

(** ** [get_permutations] *)

Section permutations.
Context {A : Type}.
Implicit Types (pool p : list A) (x : A).

Lemma picks_Permutation pool x rest :
  (x, rest) ∈ itertools.picks pool → pool ≡ₚ x :: rest.
Proof.
  revert x rest. induction pool as [|y pool IH]; intros x rest; simpl.
  - intros []%elem_of_nil.
  - intros [[= -> ->]|Hin]%elem_of_cons; [done|].
    apply list_elem_of_fmap in Hin as [[x' rest'] [[= -> ->] Hin]].
    simpl. rewrite (IH _ _ Hin). apply Permutation_swap.
Qed.

Lemma picks_elem_of pool x :
  x ∈ pool → ∃ rest, (x, rest) ∈ itertools.picks pool.
Proof.
  induction pool as [|y pool IH]; simpl.
  - intros []%elem_of_nil.
  - intros [->|Hin]%elem_of_cons.
    + exists pool. left.
    + destruct (IH Hin) as [rest Hrest]. exists (y :: rest). right.
      apply list_elem_of_fmap. by exists (x, rest).
Qed.

Lemma arrangements_Permutation r pool p :
  length pool = r → p ∈ itertools.arrangements r pool ↔ pool ≡ₚ p.
Proof.
  revert pool p. induction r as [|r IH]; intros pool p Hlen; simpl.
  - apply nil_length_inv in Hlen as ->. rewrite list_elem_of_singleton.
    split; [by intros ->|]. intros Hp. by apply Permutation_nil_l in Hp.
  - rewrite list_elem_of_bind. split.
    + intros [[x rest] [Hp Hpick]].
      apply list_elem_of_fmap in Hp as [q [-> Hq]].
      apply picks_Permutation in Hpick.
      apply IH in Hq.
      * by rewrite Hpick, Hq.
      * apply Permutation_length in Hpick. simpl in Hpick. lia.
    + intros Hp. destruct p as [|x q].
      { apply Permutation_length in Hp. simpl in Hp. lia. }
      assert (x ∈ pool) as Hx by (rewrite Hp; left).
      destruct (picks_elem_of _ _ Hx) as [rest Hpick].
      exists (x, rest). split; [|done].
      apply list_elem_of_fmap. exists q. split; [done|].
      pose proof (picks_Permutation _ _ _ Hpick) as Hpool.
      apply IH.
      * apply Permutation_length in Hpool. simpl in Hpool. lia.
      * rewrite Hpool in Hp. by apply (inj (cons x)) in Hp.
Qed.

Lemma permutations_Permutation pool p :
  p ∈ itertools.permutations pool ↔ pool ≡ₚ p.
Proof. by apply arrangements_Permutation. Qed.
End permutations.

Lemma elem_of_join_permutations (w s : string) :
  s ∈ (list_to_set (join <$> itertools.permutations (list_ascii_of_string w))
        : gset string)
  ↔ list_ascii_of_string s ≡ₚ list_ascii_of_string w.
Proof.
  rewrite elem_of_list_to_set, list_elem_of_fmap. split.
  - intros [p [-> Hp]]. rewrite chars_join.
    by apply permutations_Permutation in Hp.
  - intros Hp. exists (list_ascii_of_string s). split.
    + by rewrite join_chars.
    + by apply permutations_Permutation.
Qed.

(** C7: for every string [w], [get_permutations w] is the set of the
    rearrangements of the characters of [w]: a string is a member exactly
    when its characters are a permutation of those of [w]; the set contains
    [sort_word w]; and [get_permutations(None)] returns [None]. *)
Theorem get_permutations_all_rearrangements (w : string) :
  (∃ perms : gset string,
      get_permutations (PyStr w) = Ok (Some perms)
      ∧ (∀ s, s ∈ perms
              ↔ list_ascii_of_string s ≡ₚ list_ascii_of_string w)
      ∧ ∃ sw, sort_word (PyStr w) = Ok (PyStr sw) ∧ sw ∈ perms)
  ∧ get_permutations PyNone = Ok None.
Proof.
  split; [|reflexivity].
  eexists. split; [reflexivity|]. split.
  - intros s. apply elem_of_join_permutations.
  - exists (join (sorted w)). split; [reflexivity|].
    apply elem_of_join_permutations. rewrite chars_join.
    apply sorted_Permutation.
Qed.

(** C10: for every string [w], the set [get_permutations w] contains [w]
    itself. *)
Theorem get_permutations_contains_word (w : string) :
  ∃ perms : gset string,
    get_permutations (PyStr w) = Ok (Some perms) ∧ w ∈ perms.
Proof.
  eexists. split; [reflexivity|]. by apply elem_of_join_permutations.
Qed.

Example get_permutations_car :
  get_permutations (PyStr "car")
  = Ok (Some {[ "acr"; "arc"; "car"; "cra"; "rac"; "rca" ]}).
Proof. vm_compute. reflexivity. Qed.

(** ** [load_words_file] *)

#[local] Arguments String.append !_ _ / : simpl nomatch.

Lemma file_lines_readline (content : string) :
  content ≠ EmptyString →
  file_lines content
  = (readline content).1 :: file_lines (readline content).2.
Proof.
  induction content as [|c rest IH]; [done|]. intros _. simpl.
  destruct (Ascii.eqb c newline); [done|].
  destruct rest as [|c' rest']; [done|].
  rewrite IH by done. by destruct (readline (String c' rest')).
Qed.

Lemma file_lines_concat (content : string) :
  foldr String.append EmptyString (file_lines content) = content.
Proof.
  induction content as [|c rest IH]; [done|]. simpl.
  destruct (Ascii.eqb c newline); simpl; [by rewrite IH|].
  destruct (file_lines rest) as [|l ls]; simpl in *; by rewrite <- IH.
Qed.

Lemma file_lines_shape (content : string) i l :
  file_lines content !! i = Some l →
  terminated l ∨ (unterminated l ∧ S i = length (file_lines content)).
Proof.
  revert i l. induction content as [|c rest IH]; intros i l; [done|]. simpl.
  destruct (Ascii.eqb_spec c newline) as [->|Hc].
  - destruct i as [|i]; simpl.
    + intros [= <-]. left. exists EmptyString. split; [done|].
      unfold no_newline. simpl. apply not_elem_of_nil.
    + intros Hl. destruct (IH _ _ Hl) as [?|[? ?]]; [by left|right].
      split; [done|]. by f_equal.
  - destruct (file_lines rest) as [|l0 ls] eqn:Hrest.
    + destruct i as [|i]; [|done]. intros [= <-]. right.
      split; [|done]. split; [done|]. unfold no_newline. simpl.
      rewrite list_elem_of_singleton. congruence.
    + destruct i as [|i]; simpl.
      * intros [= <-].
        destruct (IH 0 l0 eq_refl) as [[body [-> Hbody]]|[[_ Hl0] Hlen]].
        -- left. exists (String c body). split; [done|].
           unfold no_newline in *. simpl. rewrite elem_of_cons.
           intros [?|?]; congruence.
        -- right. split; [|done]. split; [done|].
           unfold no_newline in *. simpl. rewrite elem_of_cons.
           intros [?|?]; congruence.
      * intros Hl. apply (IH (S i) l Hl).
Qed.

Lemma rstrip_suffix (l : string) :
  ∃ ws, l = rstrip l +:+ ws
        ∧ Forall (λ c, isspace c = true) (list_ascii_of_string ws).
Proof.
  induction l as [|c l (ws & Hl & Hws)]; [by exists EmptyString|]. simpl.
  destruct (rstrip l) as [|c' r] eqn:Hr.
  - destruct (isspace c) eqn:Hc.
    + exists (String c ws). simpl. split; [by rewrite Hl|by constructor].
    + exists ws. simpl. split; [by rewrite Hl|done].
  - exists ws. simpl. split; [by rewrite Hl|done].
Qed.

Lemma rstrip_no_trailing_space (l : string) : no_trailing_space (rstrip l).
Proof.
  induction l as [|c l IH]; intros p d; simpl.
  - by destruct p.
  - destruct (rstrip l) as [|c' r] eqn:Hr.
    + destruct (isspace c) eqn:Hc; [by destruct p|].
      destruct p as [|? [|? ?]]; simpl; congruence.
    + destruct p as [|c0 p]; simpl; [congruence|].
      intros [= -> Hp]. by apply (IH p d).
Qed.

Lemma lw_loop_collect fs (content : string) (fuel : nat) :
  length (file_lines content) < fuel →
  collect (lw_next fs) fuel (LwReading content)
  = Some (PyStr ∘ rstrip <$> file_lines content, Exhausted).
Proof.
  revert content. induction fuel as [|fuel IH]; intros content Hlt; [lia|].
  destruct content as [|c rest]; [done|].
  rewrite file_lines_readline in * by done.
  cbn [collect lw_next lw_loop].
  destruct (readline (String c rest)) as [line unread]. cbn [fst snd] in *.
  rewrite IH by (simpl in Hlt; lia). done.
Qed.

(** C4: for a readable source, consuming [load_words_file] yields one
    entry per line of the source, in order: entry [i] is line [i] without
    its trailing whitespace (newline included), and nothing else is
    changed.  The lines are the pieces of the content (their concatenation
    is the content), each closed by its newline except possibly the last.
    An empty source yields the empty sequence. *)
Theorem load_words_file_yields_stripped_lines
    (fs : gmap string string) (filepath content : string) :
  fs !! filepath = Some content →
  ∃ g, load_words_file filepath = Ok g
    ∧ (∀ fuel, length (file_lines content) < fuel →
         collect (lw_next fs) fuel g
         = Some (PyStr ∘ rstrip <$> file_lines content, Exhausted))
    ∧ foldr String.append EmptyString (file_lines content) = content
    ∧ (∀ i l, file_lines content !! i = Some l →
         terminated l ∨ (unterminated l ∧ S i = length (file_lines content)))
    ∧ (∀ l, no_trailing_space (rstrip l)
            ∧ ∃ ws, l = rstrip l +:+ ws
                 ∧ Forall (λ c, isspace c = true) (list_ascii_of_string ws))
    ∧ (content = EmptyString →
         collect (lw_next fs) 1 g = Some ([], Exhausted)).
Proof.
  intros Hfs. exists (LwCreated filepath). split_and!.
  - done.
  - intros [|fuel] Hlt; [lia|].
    rewrite <- (lw_loop_collect fs content (S fuel) Hlt).
    simpl. by rewrite Hfs.
  - apply file_lines_concat.
  - apply file_lines_shape.
  - intros l. split; [apply rstrip_no_trailing_space|apply rstrip_suffix].
  - intros ->. simpl. by rewrite Hfs.
Qed.

Lemma load_words_file_yields_stripped_lines_witness :
  let content :=
    "care  " +:+ String newline (" acre" +:+ String (ascii_of_nat 9)
      (String newline (String newline "race"))) in
  ∃ g, load_words_file "words" = Ok g
    ∧ collect (lw_next {[ "words" := content ]}) 5 g
      = Some ([PyStr "care"; PyStr " acre"; PyStr ""; PyStr "race"],
              Exhausted).
Proof.
  intros content.
  assert (({[ "words" := content ]} : gmap string string) !! "words"
          = Some content) as Hfs by (vm_compute; reflexivity).
  destruct (load_words_file_yields_stripped_lines _ _ _ Hfs)
    as (g & Hg & Hcollect & _).
  exists g. split; [exact Hg|].
  rewrite (Hcollect 5); [reflexivity|vm_compute; lia].
Defined.

(** C5: for a source that cannot be opened, the call of [load_words_file]
    itself returns a generator without raising; the [IOError] is raised by
    the first [next], before anything is yielded. *)
Theorem load_words_file_missing_fails_on_first_next
    (fs : gmap string string) (filepath : string) :
  fs !! filepath = None →
  ∃ g, load_words_file filepath = Ok g
    ∧ lw_next fs g = Raised IOError
    ∧ ∀ fuel, collect (lw_next fs) (S fuel) g = Some ([], Failed IOError).
Proof.
  intros Hfs. exists (LwCreated filepath). simpl. by rewrite Hfs.
Qed.

Lemma load_words_file_missing_fails_on_first_next_witness :
  ∃ g, load_words_file "test_words_missing" = Ok g
    ∧ lw_next ∅ g = Raised IOError
    ∧ ∀ fuel, collect (lw_next ∅) (S fuel) g = Some ([], Failed IOError).
Proof.
  apply (load_words_file_missing_fails_on_first_next ∅ "test_words_missing").
  vm_compute. reflexivity.
Defined.

(** ** [find_anagrams] *)

Lemma join_inj (l1 l2 : list ascii) : join l1 = join l2 → l1 = l2.
Proof. intros H. by rewrite <- (chars_join l1), H, chars_join. Qed.

(** One pass of the loop over a candidate that is a word or [None]. *)
Lemma fa_loop_cons (w : string) (c : pyval) (rest : list pyval) :
  word_or_none c →
  fa_loop (PyStr w) (PyStr (join (sorted w))) (c :: rest)
  = if nonempty_anagram_of w c
    then Yielded c (FaSuspended (PyStr w) (PyStr (join (sorted w))) rest)
    else fa_loop (PyStr w) (PyStr (join (sorted w))) rest.
Proof.
  destruct c as [|s|n]; [done| |done]. intros _.
  unfold fa_loop, fa_keep, nonempty_anagram_of, anagram_of; fold fa_loop.
  cbn [truthy len sort_word mbind result_bind].
  destruct (String.eqb s ""); [done|]. cbn [negb andb].
  destruct (String.length s =? String.length w); [|done]. cbn [andb].
  case_decide as Heq; case_bool_decide as Hs; try done.
  - destruct Hs. apply join_inj. congruence.
  - destruct Heq. by rewrite Hs.
Qed.

Lemma fa_loop_collect (w : string) (cands : list pyval) (fuel : nat) :
  Forall word_or_none cands →
  length cands < fuel →
  collect fa_next fuel
    (FaSuspended (PyStr w) (PyStr (join (sorted w))) cands)
  = Some (List.filter (nonempty_anagram_of w) cands, Exhausted).
Proof.
  intros Hwords. revert fuel.
  induction Hwords as [|c rest Hc _ IH]; intros [|fuel] Hlt;
    try (simpl in Hlt; lia); [done|].
  simpl in Hlt. cbn [collect fa_next]. rewrite fa_loop_cons by done.
  cbn [List.filter].
  destruct (nonempty_anagram_of w c).
  - by rewrite IH by lia.
  - specialize (IH (S fuel) ltac:(lia)). cbn [collect fa_next] in IH.
    exact IH.
Qed.

(** C1, as amended: for every target word and every sequence of candidates
    that are words or [None], consuming [find_anagrams] yields exactly the
    candidates that are non-null, non-empty, of the target's length and with
    the target's sorted characters; the candidates themselves are yielded, in
    their order and with their duplicates.  In particular
    [find_anagrams('time', ['emit','time','mite','car',None])] yields
    ['emit','time','mite']. *)
Theorem find_anagrams_yields_nonempty_anagrams
    (w : string) (cands : list pyval) :
  Forall word_or_none cands →
  (∃ g, find_anagrams (PyStr w) (Some cands) = Ok g
     ∧ ∀ fuel, length cands < fuel →
         collect fa_next fuel g
         = Some (List.filter (nonempty_anagram_of w) cands, Exhausted))
  ∧ (∃ g, find_anagrams (PyStr "time")
            (Some [PyStr "emit"; PyStr "time"; PyStr "mite"; PyStr "car";
                   PyNone]) = Ok g
       ∧ collect fa_next 6 g
         = Some ([PyStr "emit"; PyStr "time"; PyStr "mite"], Exhausted)).
Proof.
  intros Hwords. split.
  - eexists. split; [reflexivity|]. intros [|fuel] Hlt; [lia|].
    rewrite <- (fa_loop_collect w cands (S fuel)) by done. reflexivity.
  - eexists. split; [reflexivity|]. vm_compute. reflexivity.
Qed.

Lemma find_anagrams_yields_nonempty_anagrams_witness :
  ∃ g, find_anagrams (PyStr "care")
         (Some [PyStr "acre"; PyNone; PyStr ""; PyStr "racer"; PyStr "race";
                PyStr "acre"]) = Ok g
    ∧ collect fa_next 7 g
      = Some ([PyStr "acre"; PyStr "race"; PyStr "acre"], Exhausted).
Proof.
  assert (Forall word_or_none
            [PyStr "acre"; PyNone; PyStr ""; PyStr "racer"; PyStr "race";
             PyStr "acre"]) as Hwords by (repeat constructor).
  destruct (find_anagrams_yields_nonempty_anagrams "care" _ Hwords)
    as [(g & Hg & Hcollect) _].
  exists g. split; [exact Hg|].
  rewrite (Hcollect 7); [vm_compute; reflexivity|simpl; lia].
Defined.

(** C1, as stated, fails: the empty string is non-null, has the length of
    the target [''] and the same sorted characters, yet
    [find_anagrams('', [''])] yields nothing. *)
Lemma find_anagrams_skips_empty_anagram :
  ¬ (∀ (w : string) (cands : list pyval),
       Forall word_or_none cands →
       ∃ g, find_anagrams (PyStr w) (Some cands) = Ok g
         ∧ ∀ fuel, length cands < fuel →
             collect fa_next fuel g
             = Some (List.filter (anagram_of w) cands, Exhausted)).
Proof.
  intros Hclaim.
  destruct (Hclaim "" [PyStr ""]) as (g & [= <-] & Hcollect).
  { repeat constructor. }
  specialize (Hcollect 2 ltac:(simpl; lia)). vm_compute in Hcollect.
  discriminate Hcollect.
Qed.

(** C2, as amended: when the target word or the candidate sequence is
    [None], the call of [find_anagrams] returns a generator without
    raising; the [ValueError] is raised by the first [next], before any
    candidate is yielded. *)
Theorem find_anagrams_none_fails_on_first_next
    (word : pyval) (valid_words : option (list pyval)) :
  word = PyNone ∨ valid_words = None →
  ∃ g, find_anagrams word valid_words = Ok g
    ∧ fa_next g = Raised ValueError
    ∧ ∀ fuel, collect fa_next (S fuel) g = Some ([], Failed ValueError).
Proof.
  intros Hnone. exists (FaCreated word valid_words).
  assert (fa_next (FaCreated word valid_words) = Raised ValueError) as Hnext.
  { destruct Hnone as [-> | ->]; [done|]. by destruct word. }
  split_and!; [done|done|]. intros fuel. cbn [collect]. by rewrite Hnext.
Qed.

Lemma find_anagrams_none_fails_on_first_next_witness :
  (∃ g, find_anagrams PyNone (Some [PyStr "emit"; PyStr "time"]) = Ok g
     ∧ fa_next g = Raised ValueError
     ∧ ∀ fuel, collect fa_next (S fuel) g = Some ([], Failed ValueError))
  ∧ (∃ g, find_anagrams (PyStr "time") None = Ok g
       ∧ fa_next g = Raised ValueError
       ∧ ∀ fuel, collect fa_next (S fuel) g = Some ([], Failed ValueError)).
Proof.
  split.
  - apply find_anagrams_none_fails_on_first_next. left. reflexivity.
  - apply find_anagrams_none_fails_on_first_next. right. reflexivity.
Defined.

(** C2, as stated, fails: the call [find_anagrams(None, [])] does not raise
    [ValueError]; it returns a generator. *)
Lemma find_anagrams_call_does_not_raise :
  ¬ (∀ (word : pyval) (valid_words : option (list pyval)),
       word = PyNone ∨ valid_words = None →
       find_anagrams word valid_words = Raise ValueError).
Proof.
  intros Hclaim. specialize (Hclaim PyNone (Some []) (or_introl eq_refl)).
  discriminate Hclaim.
Qed.

(** Whatever the target and the candidates are, the loop never yields the
    empty string, and it comes to an end. *)
Lemma fa_loop_never_empty (word sorted_base : pyval) (items : list pyval)
    (fuel : nat) :
  length items < fuel →
  ∃ out e,
    collect fa_next fuel (FaSuspended word sorted_base items) = Some (out, e)
    ∧ PyStr "" ∉ out.
Proof.
  revert fuel. induction items as [|c rest IH]; intros [|fuel] Hlt;
    try (simpl in Hlt; lia).
  { exists [], Exhausted. split; [done|apply not_elem_of_nil]. }
  simpl in Hlt.
  destruct (IH (S fuel) ltac:(lia)) as (out & e & Hskip & Hout).
  cbn [collect fa_next] in Hskip. cbn [collect fa_next fa_loop].
  destruct (fa_keep word c) as [[|]|err] eqn:Hkeep.
  - destruct (sort_word c) as [sw|err].
    + case_decide.
      * destruct (IH fuel ltac:(lia)) as (out' & e' & -> & Hout').
        exists (c :: out'), e'. split; [done|].
        rewrite not_elem_of_cons. split; [|done].
        intros <-. discriminate Hkeep.
      * by exists out, e.
    + exists [], (Failed err). split; [done|apply not_elem_of_nil].
  - by exists out, e.
  - exists [], (Failed err). split; [done|apply not_elem_of_nil].
Qed.

(** C9: for every target word and every candidate sequence, consuming
    [find_anagrams] comes to an end and never yields the empty string; in
    particular [find_anagrams('', [''])] yields the empty sequence, although
    the empty candidate has the target's length and sorted characters. *)
Theorem find_anagrams_never_yields_empty
    (w : string) (cands : list pyval) :
  (∃ g, find_anagrams (PyStr w) (Some cands) = Ok g
     ∧ ∀ extra, ∃ out e,
         collect fa_next (S (length cands + extra)) g = Some (out, e)
         ∧ PyStr "" ∉ out)
  ∧ (∃ g, find_anagrams (PyStr "") (Some [PyStr ""]) = Ok g
       ∧ collect fa_next 2 g = Some ([], Exhausted)
       ∧ anagram_of "" (PyStr "") = true).
Proof.
  split.
  - eexists. split; [reflexivity|]. intros extra.
    destruct (fa_loop_never_empty (PyStr w) (PyStr (join (sorted w)))
                cands (S (length cands + extra)) ltac:(lia))
      as (out & e & Hcollect & Hout).
    exists out, e. split; [|done]. rewrite <- Hcollect. reflexivity.
  - eexists. split; [reflexivity|]. split; vm_compute; reflexivity.
Qed.

(** * Further properties *)

(** ** Canonical forms *)

Lemma sorted_eq_Permutation (v w : string) :
  sorted v = sorted w ↔ list_ascii_of_string v ≡ₚ list_ascii_of_string w.
Proof.
  split; [|apply sorted_perm_invariant].
  intros Heq. by rewrite <- (sorted_Permutation v), Heq, sorted_Permutation.
Qed.

Lemma anagram_of_Permutation (w s : string) :
  anagram_of w (PyStr s) = true
  ↔ list_ascii_of_string s ≡ₚ list_ascii_of_string w.
Proof.
  unfold anagram_of. rewrite andb_true_iff, Nat.eqb_eq, bool_decide_eq_true.
  rewrite sorted_eq_Permutation. split; [by intros [_ ?]|].
  intros Hp. split; [|done].
  rewrite <- !length_list_ascii_of_string. by rewrite Hp.
Qed.

(** X1: two words have the same [sort_word] exactly when each is a
    rearrangement of the characters of the other. *)
Theorem sort_word_eq_iff_rearrangement (a b : string) :
  sort_word (PyStr a) = sort_word (PyStr b)
  ↔ list_ascii_of_string a ≡ₚ list_ascii_of_string b.
Proof.
  rewrite <- sorted_eq_Permutation. simpl. split.
  - intros [= Heq]. by apply join_inj.
  - by intros ->.
Qed.

(** ** The two algorithms of the module *)

Lemma nonempty_anagram_is_member (w : string) (c : pyval) :
  nonempty_anagram_of w c
  = nonempty_member
      (list_to_set (join <$> itertools.permutations (list_ascii_of_string w)))
      c.
Proof.
  destruct c as [|s|n]; [done| |done].
  unfold nonempty_anagram_of, nonempty_member. f_equal.
  pose proof (anagram_of_Permutation w s) as Hana.
  pose proof (elem_of_join_permutations w s) as Hmem.
  destruct (anagram_of w (PyStr s)); case_bool_decide as Hs; try done.
  - destruct Hs. by apply Hmem, Hana.
  - by apply Hmem, Hana in Hs.
Qed.

(** X2: the sorting algorithm and the permutations algorithm agree:
    [find_anagrams] yields exactly the non-empty candidates that are
    members of [get_permutations] of the target. *)
Theorem find_anagrams_agrees_with_get_permutations
    (w : string) (cands : list pyval) :
  Forall word_or_none cands →
  ∃ g perms,
    find_anagrams (PyStr w) (Some cands) = Ok g
    ∧ get_permutations (PyStr w) = Ok (Some perms)
    ∧ ∀ fuel, length cands < fuel →
        collect fa_next fuel g
        = Some (List.filter (nonempty_member perms) cands, Exhausted).
Proof.
  intros Hwords. do 2 eexists. split_and!; [reflexivity..|].
  intros [|fuel] Hlt; [lia|].
  rewrite <- (List.filter_ext _ _ (nonempty_anagram_is_member w)).
  rewrite <- (fa_loop_collect w cands (S fuel)) by done. reflexivity.
Qed.

Lemma find_anagrams_agrees_with_get_permutations_witness :
  ∃ g perms,
    find_anagrams (PyStr "car") (Some [PyStr "arc"; PyNone; PyStr "cat"])
    = Ok g
    ∧ get_permutations (PyStr "car") = Ok (Some perms)
    ∧ collect fa_next 4 g = Some ([PyStr "arc"], Exhausted).
Proof.
  assert (Forall word_or_none [PyStr "arc"; PyNone; PyStr "cat"]) as Hwords
    by (repeat constructor).
  destruct (find_anagrams_agrees_with_get_permutations "car" _ Hwords)
    as (g & perms & Hg & Hperms & Hcollect).
  exists g, perms. split_and!; [exact Hg|exact Hperms|].
  rewrite (Hcollect 4) by (simpl; lia).
  injection Hperms as <-. vm_compute. reflexivity.
Defined.

(** ** How many permutations *)

Section counting.
Context {A : Type}.
Implicit Types (pool p : list A) (x : A).

Lemma length_bind_const {B} (f : A * list A → list B)
    (l : list (A * list A)) (k : nat) :
  (∀ y, y ∈ l → length (f y) = k) → length (l ≫= f) = length l * k.
Proof.
  induction l as [|y l IH]; intros Hf; [done|].
  rewrite bind_cons, length_app, Hf by left. simpl.
  rewrite IH; [done|]. intros z Hz. apply Hf. by right.
Qed.

Lemma length_picks pool : length (itertools.picks pool) = length pool.
Proof.
  induction pool as [|x pool IH]; simpl; [done|].
  by rewrite length_fmap, IH.
Qed.

Lemma length_arrangements r pool :
  length pool = r → length (itertools.arrangements r pool) = fact r.
Proof.
  revert pool. induction r as [|r IH]; intros pool Hlen; [done|].
  cbn [itertools.arrangements fact].
  rewrite (length_bind_const _ _ (fact r)), length_picks, Hlen; [done|].
  intros [x rest] Hpick. rewrite length_fmap. apply IH.
  apply picks_Permutation, Permutation_length in Hpick. simpl in Hpick. lia.
Qed.

Lemma picks_fst pool : (itertools.picks pool).*1 = pool.
Proof.
  induction pool as [|x pool IH]; simpl; [done|]. f_equal.
  rewrite <- list_fmap_compose. rewrite <- IH at 2.
  apply list_fmap_ext. by intros ? [??].
Qed.

Lemma picks_rest_unique pool x rest1 rest2 :
  NoDup pool →
  (x, rest1) ∈ itertools.picks pool → (x, rest2) ∈ itertools.picks pool →
  rest1 = rest2.
Proof.
  intros Hnd. revert rest1 rest2.
  induction Hnd as [|y pool Hy Hnd IH]; intros rest1 rest2; simpl.
  { intros []%elem_of_nil. }
  assert (∀ rest, (y, rest) ∈ prod_map id (cons y) <$> itertools.picks pool
                  → False) as Hfresh.
  { intros rest [[y' r'] [[= <- _] Hin]]%list_elem_of_fmap.
    apply Hy. rewrite <- (picks_fst pool).
    apply list_elem_of_fmap. by exists (y, r'). }
  intros [Heq1|Hin1]%elem_of_cons [Heq2|Hin2]%elem_of_cons.
  - congruence.
  - injection Heq1 as -> ->. by destruct (Hfresh rest2).
  - injection Heq2 as -> ->. by destruct (Hfresh rest1).
  - apply list_elem_of_fmap in Hin1 as [[x1 r1] [[= -> ->] Hin1]].
    apply list_elem_of_fmap in Hin2 as [[x2 r2] [[= -> ->] Hin2]].
    f_equal. by apply IH.
Qed.

Lemma NoDup_picks pool : NoDup pool → NoDup (itertools.picks pool).
Proof.
  intros Hnd. apply (NoDup_fmap_1 fst). by rewrite picks_fst.
Qed.

Lemma NoDup_arrangements r pool :
  NoDup pool → NoDup (itertools.arrangements r pool).
Proof.
  revert pool. induction r as [|r IH]; intros pool Hnd; simpl.
  { apply NoDup_singleton. }
  apply NoDup_bind; [| |by apply NoDup_picks].
  - intros [x1 r1] [x2 r2] p Hin1 Hin2
      [q1 [-> Hq1]]%list_elem_of_fmap [q2 [[= -> ->] Hq2]]%list_elem_of_fmap.
    f_equal. by apply (picks_rest_unique pool x2).
  - intros [x rest] Hpick. apply (NoDup_fmap_2 _). apply IH.
    apply picks_Permutation in Hpick. rewrite Hpick in Hnd.
    by apply NoDup_cons in Hnd as [_ ?].
Qed.
End counting.

Lemma size_list_to_set_le (l : list string) :
  size (list_to_set l : gset string) ≤ length l.
Proof.
  induction l as [|x l IH].
  - rewrite list_to_set_nil, size_empty. done.
  - rewrite list_to_set_cons, size_union_alt, size_singleton. simpl.
    assert (size (list_to_set l ∖ {[x]} : gset string)
            ≤ size (list_to_set l : gset string)).
    { by apply subseteq_size, subseteq_difference_l. }
    lia.
Qed.

#[global] Instance join_injective : Inj (=) (=) join.
Proof. intros l1 l2. apply join_inj. Qed.

(** X3: [get_permutations] of a word of [n] characters returns at most
    [n!] strings. *)
Theorem get_permutations_size_le (w : string) :
  ∃ perms : gset string,
    get_permutations (PyStr w) = Ok (Some perms)
    ∧ size perms ≤ fact (String.length w).
Proof.
  eexists. split; [reflexivity|].
  rewrite <- length_list_ascii_of_string.
  rewrite <- (length_arrangements _ (list_ascii_of_string w) eq_refl).
  fold (itertools.permutations (list_ascii_of_string w)).
  rewrite <- (length_fmap join). apply size_list_to_set_le.
Qed.

(** X4: when the characters of a word of [n] characters are pairwise
    distinct, [get_permutations] returns exactly [n!] strings. *)
Theorem get_permutations_size_distinct (w : string) :
  NoDup (list_ascii_of_string w) →
  ∃ perms : gset string,
    get_permutations (PyStr w) = Ok (Some perms)
    ∧ size perms = fact (String.length w).
Proof.
  intros Hnd. eexists. split; [reflexivity|].
  rewrite <- length_list_ascii_of_string.
  rewrite <- (length_arrangements _ (list_ascii_of_string w) eq_refl).
  fold (itertools.permutations (list_ascii_of_string w)).
  rewrite <- (length_fmap join).
  apply size_list_to_set, (NoDup_fmap_2 _). by apply NoDup_arrangements.
Qed.

Lemma get_permutations_size_distinct_witness :
  ∃ perms : gset string,
    get_permutations (PyStr "time") = Ok (Some perms) ∧ size perms = 24.
Proof.
  apply (get_permutations_size_distinct "time").
  apply (bool_decide_unpack _). vm_compute. exact I.
Defined.

(** ** [find_anagrams] on arbitrary candidates *)

Lemma collect_fa_suspended (fuel : nat) (word sorted_base : pyval)
    (items : list pyval) :
  collect fa_next (S fuel) (FaSuspended word sorted_base items)
  = match fa_loop word sorted_base items with
    | Yielded v s' =>
        match collect fa_next fuel s' with
        | Some (vs, e) => Some (v :: vs, e)
        | None => None
        end
    | Stopped => Some ([], Exhausted)
    | Raised e => Some ([], Failed e)
    end.
Proof. reflexivity. Qed.

Lemma fa_loop_falsy (word sorted_base c : pyval) (rest : list pyval) :
  truthy c = false →
  fa_loop word sorted_base (c :: rest) = fa_loop word sorted_base rest.
Proof. intros Hc. cbn [fa_loop]. unfold fa_keep. by rewrite Hc. Qed.

Lemma fa_loop_nonstring (word sorted_base : pyval) (n : Z)
    (rest : list pyval) :
  n ≠ 0%Z →
  fa_loop word sorted_base (PyInt n :: rest) = Raised TypeError.
Proof.
  intros Hn. cbn [fa_loop]. unfold fa_keep. cbn [truthy].
  by destruct (Z.eqb_spec n 0).
Qed.

(** X5: a candidate that is neither a string nor false in a condition (a
    non-zero integer) makes the generator raise [TypeError] when the loop
    reaches it: the matches before it have been yielded, the candidates
    after it are never looked at. *)
Theorem find_anagrams_nonstring_candidate
    (w : string) (before after : list pyval) (n : Z) :
  Forall word_or_none before →
  n ≠ 0%Z →
  ∃ g, find_anagrams (PyStr w) (Some (before ++ PyInt n :: after)) = Ok g
    ∧ ∀ fuel, length before < fuel →
        collect fa_next fuel g
        = Some (List.filter (nonempty_anagram_of w) before, Failed TypeError).
Proof.
  intros Hwords Hn. eexists. split; [reflexivity|].
  intros [|fuel] Hlt; [lia|].
  change (collect fa_next (S fuel)
            (FaCreated (PyStr w) (Some (before ++ PyInt n :: after))))
    with (collect fa_next (S fuel)
            (FaSuspended (PyStr w) (PyStr (join (sorted w)))
               (before ++ PyInt n :: after))).
  revert fuel Hlt.
  induction Hwords as [|c rest Hc _ IH]; intros fuel Hlt.
  - rewrite collect_fa_suspended. simpl app.
    by rewrite fa_loop_nonstring.
  - simpl in Hlt. destruct fuel as [|fuel]; [lia|].
    rewrite collect_fa_suspended. simpl app.
    rewrite fa_loop_cons by done. cbn [List.filter].
    destruct (nonempty_anagram_of w c).
    + by rewrite IH by lia.
    + rewrite <- collect_fa_suspended. apply IH. lia.
Qed.

Lemma find_anagrams_nonstring_candidate_witness :
  ∃ g, find_anagrams (PyStr "time")
         (Some ([PyStr "emit"; PyNone] ++ PyInt 7 :: [PyStr "mite"])) = Ok g
    ∧ collect fa_next 3 g = Some ([PyStr "emit"], Failed TypeError).
Proof.
  assert (Forall word_or_none [PyStr "emit"; PyNone]) as Hwords
    by (repeat constructor).
  destruct (find_anagrams_nonstring_candidate "time" _ [PyStr "mite"] 7
              Hwords ltac:(lia)) as (g & Hg & Hcollect).
  exists g. split; [exact Hg|].
  rewrite (Hcollect 3) by (simpl; lia). vm_compute. reflexivity.
Defined.

Lemma fa_loop_skip_falsy (word sorted_base : pyval) (items : list pyval)
    (fuel : nat) :
  length items < fuel →
  collect fa_next fuel (FaSuspended word sorted_base items)
  = collect fa_next fuel
      (FaSuspended word sorted_base (List.filter truthy items)).
Proof.
  revert fuel. induction items as [|c rest IH]; intros [|fuel] Hlt;
    try (simpl in Hlt; lia); [done|].
  simpl in Hlt. cbn [List.filter]. destruct (truthy c) eqn:Hc.
  - rewrite !collect_fa_suspended. cbn [fa_loop].
    destruct (fa_keep word c) as [[|]|err]; [| |done].
    + destruct (sort_word c) as [sw|err]; [|done]. case_decide.
      * by rewrite IH by lia.
      * rewrite <- !collect_fa_suspended. apply IH. lia.
    + rewrite <- !collect_fa_suspended. apply IH. lia.
  - rewrite collect_fa_suspended, fa_loop_falsy by done.
    rewrite <- collect_fa_suspended. apply IH. lia.
Qed.

(** X6: candidates that are false in a condition ([None], the empty string,
    the integer zero) are skipped without any effect: removing them from
    the candidate list changes neither what is yielded nor how the
    iteration ends, whatever the target and the other candidates are. *)
Theorem find_anagrams_ignores_falsy_candidates
    (word : pyval) (cands : list pyval) (extra : nat) :
  ∃ g g' out e,
    find_anagrams word (Some cands) = Ok g
    ∧ find_anagrams word (Some (List.filter truthy cands)) = Ok g'
    ∧ collect fa_next (S (length cands + extra)) g = Some (out, e)
    ∧ collect fa_next (S (length cands + extra)) g' = Some (out, e).
Proof.
  destruct word as [|w|n].
  - by exists (FaCreated PyNone (Some cands)),
      (FaCreated PyNone (Some (List.filter truthy cands))),
      [], (Failed ValueError).
  - destruct (fa_loop_never_empty (PyStr w) (PyStr (join (sorted w))) cands
                (S (length cands + extra)) ltac:(lia))
      as (out & e & Hcollect & _).
    exists (FaCreated (PyStr w) (Some cands)),
      (FaCreated (PyStr w) (Some (List.filter truthy cands))), out, e.
    split_and!; [done|done|exact Hcollect|].
    rewrite <- Hcollect. symmetry.
    exact (fa_loop_skip_falsy (PyStr w) (PyStr (join (sorted w))) cands
             (S (length cands + extra)) ltac:(lia)).
  - by exists (FaCreated (PyInt n) (Some cands)),
      (FaCreated (PyInt n) (Some (List.filter truthy cands))),
      [], (Failed TypeError).
Qed.

Lemma fa_loop_sound (w : string) (items : list pyval) (fuel : nat) :
  length items < fuel →
  ∃ out e,
    collect fa_next fuel
      (FaSuspended (PyStr w) (PyStr (join (sorted w))) items) = Some (out, e)
    ∧ out `sublist_of` items
    ∧ Forall (λ v, nonempty_anagram_of w v = true) out.
Proof.
  revert fuel. induction items as [|c rest IH]; intros [|fuel] Hlt;
    try (simpl in Hlt; lia).
  { by exists [], Exhausted. }
  simpl in Hlt.
  destruct (IH (S fuel) ltac:(lia)) as (out & e & Hskip & Hsub & Hall).
  rewrite collect_fa_suspended in *.
  destruct c as [|s|n].
  - rewrite fa_loop_cons by done. simpl.
    exists out, e. split_and!; [done| |done]. by apply sublist_cons.
  - rewrite fa_loop_cons by done.
    destruct (nonempty_anagram_of w (PyStr s)) eqn:Hs.
    + destruct (IH fuel ltac:(lia)) as (out' & e' & -> & Hsub' & Hall').
      exists (PyStr s :: out'), e'. split_and!; [done| |].
      * by apply sublist_skip.
      * by constructor.
    + exists out, e. split_and!; [done| |done]. by apply sublist_cons.
  - destruct (Z.eqb_spec n 0) as [->|Hn].
    + rewrite fa_loop_falsy by done.
      exists out, e. split_and!; [done| |done]. by apply sublist_cons.
    + rewrite fa_loop_nonstring by done.
      exists [], (Failed TypeError). split_and!; [done| |done].
      apply sublist_nil_l.
Qed.

(** X7: whatever the target and the candidates are, consuming
    [find_anagrams] comes to an end, normally or by an exception; what it
    has yielded by then is a subsequence of the candidates (nothing is
    invented, reordered or repeated), and each yielded value is a non-empty
    string that is an anagram of the target, which is then a string. *)
Theorem find_anagrams_yields_only_anagrams
    (word : pyval) (cands : list pyval) (extra : nat) :
  ∃ g out e,
    find_anagrams word (Some cands) = Ok g
    ∧ collect fa_next (S (length cands + extra)) g = Some (out, e)
    ∧ out `sublist_of` cands
    ∧ Forall (λ v, ∃ w, word = PyStr w ∧ nonempty_anagram_of w v = true) out.
Proof.
  destruct word as [|w|n].
  - exists (FaCreated PyNone (Some cands)), [], (Failed ValueError).
    split_and!; [done|done|apply sublist_nil_l|done].
  - destruct (fa_loop_sound w cands (S (length cands + extra)) ltac:(lia))
      as (out & e & Hcollect & Hsub & Hall).
    exists (FaCreated (PyStr w) (Some cands)), out, e.
    split_and!; [done|exact Hcollect|done|].
    eapply Forall_impl; [exact Hall|]. intros v Hv. by exists w.
  - exists (FaCreated (PyInt n) (Some cands)), [], (Failed TypeError).
    split_and!; [done|done|apply sublist_nil_l|done].
Qed.

Lemma nonempty_anagram_of_Permutation (w w' : string) (c : pyval) :
  list_ascii_of_string w ≡ₚ list_ascii_of_string w' →
  nonempty_anagram_of w c = nonempty_anagram_of w' c.
Proof.
  intros Hp. destruct c as [|s|n]; [done| |done].
  unfold nonempty_anagram_of, anagram_of. do 2 f_equal.
  - rewrite <- !(length_list_ascii_of_string w),
      <- !(length_list_ascii_of_string w'). by rewrite Hp.
  - by rewrite (sorted_perm_invariant w w').
Qed.

(** X8: the result depends on the letters of the target only: two targets
    that are rearrangements of each other give the same anagrams. *)
Theorem find_anagrams_target_up_to_rearrangement
    (w w' : string) (cands : list pyval) :
  Forall word_or_none cands →
  list_ascii_of_string w ≡ₚ list_ascii_of_string w' →
  ∃ g g', find_anagrams (PyStr w) (Some cands) = Ok g
    ∧ find_anagrams (PyStr w') (Some cands) = Ok g'
    ∧ ∀ fuel, length cands < fuel →
        ∃ out, collect fa_next fuel g = Some (out, Exhausted)
             ∧ collect fa_next fuel g' = Some (out, Exhausted).
Proof.
  intros Hwords Hp. do 2 eexists. split_and!; [reflexivity..|].
  intros [|fuel] Hlt; [lia|].
  exists (List.filter (nonempty_anagram_of w) cands). split.
  - exact (fa_loop_collect w cands (S fuel) Hwords Hlt).
  - rewrite (List.filter_ext _ _
               (λ c, nonempty_anagram_of_Permutation w w' c Hp)).
    exact (fa_loop_collect w' cands (S fuel) Hwords Hlt).
Qed.

Lemma find_anagrams_target_up_to_rearrangement_witness :
  ∃ g g', find_anagrams (PyStr "time") (Some [PyStr "emit"; PyStr "car"])
          = Ok g
    ∧ find_anagrams (PyStr "mite") (Some [PyStr "emit"; PyStr "car"]) = Ok g'
    ∧ ∃ out, collect fa_next 3 g = Some (out, Exhausted)
           ∧ collect fa_next 3 g' = Some (out, Exhausted).
Proof.
  assert (Forall word_or_none [PyStr "emit"; PyStr "car"]) as Hwords
    by (repeat constructor).
  assert (list_ascii_of_string "time" ≡ₚ list_ascii_of_string "mite") as Hp.
  { apply (bool_decide_unpack _). vm_compute. exact I. }
  destruct (find_anagrams_target_up_to_rearrangement "time" "mite" _
              Hwords Hp) as (g & g' & Hg & Hg' & Hcollect).
  exists g, g'. split_and!; [exact Hg|exact Hg'|].
  apply (Hcollect 3). simpl. lia.
Defined.

(** X9: being found is symmetric: [s] is yielded when it is the only
    candidate for the target [w] exactly when [w] is yielded as the only
    candidate for the target [s]. *)
Theorem find_anagrams_symmetric (w s : string) :
  ∃ g g', find_anagrams (PyStr w) (Some [PyStr s]) = Ok g
    ∧ find_anagrams (PyStr s) (Some [PyStr w]) = Ok g'
    ∧ (collect fa_next 2 g = Some ([PyStr s], Exhausted)
       ↔ collect fa_next 2 g' = Some ([PyStr w], Exhausted)).
Proof.
  do 2 eexists. split_and!; [reflexivity..|].
  assert (∀ a b, collect fa_next 2 (FaCreated (PyStr a) (Some [PyStr b]))
                 = Some ([PyStr b], Exhausted)
                 ↔ b ≠ EmptyString
                   ∧ list_ascii_of_string b ≡ₚ list_ascii_of_string a)
    as Hfound.
  { intros a b.
    pose proof (fa_loop_collect a [PyStr b] 2) as Hcollect.
    change (collect fa_next 2 (FaCreated (PyStr a) (Some [PyStr b])))
      with (collect fa_next 2
              (FaSuspended (PyStr a) (PyStr (join (sorted a))) [PyStr b])).
    rewrite Hcollect by (repeat constructor). cbn [List.filter].
    pose proof (anagram_of_Permutation a b) as Hana.
    unfold nonempty_anagram_of.
    destruct (String.eqb_spec b ""), (anagram_of a (PyStr b)); simpl;
      split; try done; try (intros [? ?]; done).
    - intros _. split; [done|]. by apply Hana.
    - intros [_ Hp]. by apply Hana in Hp. }
  rewrite !Hfound. split; intros [Hne Hp]; (split; [|done]).
  - intros ->. apply Permutation_nil_r in Hp. by destruct s.
  - intros ->. apply Permutation_nil_r in Hp. by destruct w.
Qed.

(** X10: candidates are judged one by one: the anagrams found in a
    concatenation of two candidate lists are those found in the first list
    followed by those found in the second. *)
Theorem find_anagrams_app (w : string) (cands1 cands2 : list pyval) :
  Forall word_or_none cands1 →
  Forall word_or_none cands2 →
  ∃ g1 g2 g out1 out2,
    find_anagrams (PyStr w) (Some cands1) = Ok g1
    ∧ find_anagrams (PyStr w) (Some cands2) = Ok g2
    ∧ find_anagrams (PyStr w) (Some (cands1 ++ cands2)) = Ok g
    ∧ collect fa_next (S (length cands1)) g1 = Some (out1, Exhausted)
    ∧ collect fa_next (S (length cands2)) g2 = Some (out2, Exhausted)
    ∧ collect fa_next (S (length (cands1 ++ cands2))) g
      = Some (out1 ++ out2, Exhausted).
Proof.
  intros Hwords1 Hwords2.
  exists (FaCreated (PyStr w) (Some cands1)),
    (FaCreated (PyStr w) (Some cands2)),
    (FaCreated (PyStr w) (Some (cands1 ++ cands2))),
    (List.filter (nonempty_anagram_of w) cands1),
    (List.filter (nonempty_anagram_of w) cands2).
  split_and!; [done..| | |].
  - exact (fa_loop_collect w cands1 (S (length cands1)) Hwords1 ltac:(lia)).
  - exact (fa_loop_collect w cands2 (S (length cands2)) Hwords2 ltac:(lia)).
  - rewrite <- List.filter_app.
    assert (Forall word_or_none (cands1 ++ cands2)) as Hwords
      by by apply Forall_app.
    exact (fa_loop_collect w (cands1 ++ cands2)
             (S (length (cands1 ++ cands2))) Hwords ltac:(lia)).
Qed.

Lemma find_anagrams_app_witness :
  ∃ g1 g2 g out1 out2,
    find_anagrams (PyStr "care") (Some [PyStr "acre"; PyStr "rack"]) = Ok g1
    ∧ find_anagrams (PyStr "care") (Some [PyNone; PyStr "race"]) = Ok g2
    ∧ find_anagrams (PyStr "care")
        (Some ([PyStr "acre"; PyStr "rack"] ++ [PyNone; PyStr "race"]))
      = Ok g
    ∧ collect fa_next 3 g1 = Some (out1, Exhausted)
    ∧ collect fa_next 3 g2 = Some (out2, Exhausted)
    ∧ collect fa_next 5 g = Some (out1 ++ out2, Exhausted).
Proof.
  apply (find_anagrams_app "care" [PyStr "acre"; PyStr "rack"]
           [PyNone; PyStr "race"]); repeat constructor.
Defined.

(** ** The entries of [load_words_file] *)

Lemma list_ascii_of_string_app (a b : string) :
  list_ascii_of_string (a +:+ b)
  = list_ascii_of_string a ++ list_ascii_of_string b.
Proof. induction a as [|c a IH]; simpl; [done|]. by rewrite IH. Qed.

Lemma rstrip_no_newline (l : string) :
  terminated l ∨ unterminated l → no_newline (rstrip l).
Proof.
  destruct (rstrip_suffix l) as (ws & Hl & Hws).
  pose proof (rstrip_no_trailing_space l) as Hend.
  unfold no_newline. intros Hshape Hin.
  apply list_elem_of_split in Hin as (l1 & l2 & Hsplit).
  assert (rstrip l = join l1 +:+ String newline (join l2)) as Hr.
  { rewrite <- (join_chars (rstrip l)), Hsplit.
    unfold join. clear. induction l1 as [|c l1 IH]; simpl; [done|].
    by rewrite IH. }
  assert (list_ascii_of_string l
          = l1 ++ newline :: (l2 ++ list_ascii_of_string ws)) as Hchars.
  { rewrite Hl, list_ascii_of_string_app, Hsplit.
    by rewrite <- app_assoc. }
  assert (l2 ++ list_ascii_of_string ws = []) as Hnil.
  { destruct Hshape as [(body & -> & Hbody)|[_ Hnone]].
    - rewrite list_ascii_of_string_app in Hchars. simpl in Hchars.
      destruct (decide (l2 ++ list_ascii_of_string ws = [])) as [|Hne];
        [done|].
      destruct Hbody.
      apply exists_last in Hne as (front & z & Hfront).
      rewrite Hfront in Hchars.
      change (newline :: front ++ [z]) with ((newline :: front) ++ [z])
        in Hchars.
      rewrite app_assoc in Hchars. apply app_inj_tail in Hchars as [-> _].
      apply elem_of_app. right. left.
    - destruct Hnone. rewrite Hchars. apply elem_of_app. right. left. }
  apply app_eq_nil in Hnil as [-> _].
  specialize (Hend (join l1) newline). simpl in Hend.
  rewrite Hr in Hend. by specialize (Hend eq_refl).
Qed.

(** X11: the entries that [load_words_file] yields are clean words: none
    contains a newline and none ends with whitespace. *)
Theorem load_words_file_entries_clean
    (fs : gmap string string) (filepath content : string) :
  fs !! filepath = Some content →
  ∃ g out,
    load_words_file filepath = Ok g
    ∧ collect (lw_next fs) (S (length (file_lines content))) g
      = Some (out, Exhausted)
    ∧ Forall (λ v, ∃ s, v = PyStr s ∧ no_newline s ∧ no_trailing_space s)
        out.
Proof.
  intros Hfs.
  exists (LwCreated filepath), (PyStr ∘ rstrip <$> file_lines content).
  split_and!; [done| |].
  - rewrite <- (lw_loop_collect fs content (S (length (file_lines content))))
      by lia.
    simpl. by rewrite Hfs.
  - apply Forall_fmap, Forall_lookup. intros i l Hl.
    exists (rstrip l). split_and!; [done| |apply rstrip_no_trailing_space].
    apply rstrip_no_newline.
    destruct (file_lines_shape _ _ _ Hl) as [?|[? _]]; [by left|by right].
Qed.

Lemma load_words_file_entries_clean_witness :
  let content := "care  " +:+ String newline (String newline " acre") in
  ∃ g out,
    load_words_file "words" = Ok g
    ∧ collect (lw_next {[ "words" := content ]}) 4 g = Some (out, Exhausted)
    ∧ Forall (λ v, ∃ s, v = PyStr s ∧ no_newline s ∧ no_trailing_space s)
        out.
Proof.
  intros content.
  assert (({[ "words" := content ]} : gmap string string) !! "words"
          = Some content) as Hfs by (vm_compute; reflexivity).
  exact (load_words_file_entries_clean _ _ _ Hfs).
Defined.

(** ** [find_anagrams] over a generator, and the script *)

Section over_source.
Context {S : Type} (src_next : S → outcome S).

Lemma fai_loop_step (w : string) (fuel : nat) (s s' : S) (c : pyval) :
  src_next s = Yielded c s' →
  word_or_none c →
  fai_loop src_next (Datatypes.S fuel) (PyStr w) (PyStr (join (sorted w))) s
  = if nonempty_anagram_of w c
    then Some (Yielded c
                 (FaiSuspended (PyStr w) (PyStr (join (sorted w))) s'))
    else fai_loop src_next fuel (PyStr w) (PyStr (join (sorted w))) s'.
Proof.
  intros Hs Hc. cbn [fai_loop]. rewrite Hs.
  pose proof (fa_loop_cons w c [] Hc) as Hlist. cbn [fa_loop] in Hlist.
  destruct (fa_keep (PyStr w) c) as [[|]|err].
  - destruct (sort_word c) as [sw|err].
    + case_decide; by destruct (nonempty_anagram_of w c).
    + by destruct (nonempty_anagram_of w c).
  - by destruct (nonempty_anagram_of w c).
  - by destruct (nonempty_anagram_of w c).
Qed.

(** One [next] of the generator, over a source that yields [items] and
    then stops: it stops when no item matches, and otherwise yields the
    first match and keeps the source where that match was found. *)
Lemma fai_loop_over (w : string) (k : nat) (s : S) (items : list pyval)
    (fuel : nat) :
  collect src_next k s = Some (items, Exhausted) →
  Forall word_or_none items →
  k ≤ fuel →
  (List.filter (nonempty_anagram_of w) items = []
   ∧ fai_loop src_next fuel (PyStr w) (PyStr (join (sorted w))) s
     = Some Stopped)
  ∨ ∃ v s' k' items',
      fai_loop src_next fuel (PyStr w) (PyStr (join (sorted w))) s
      = Some (Yielded v
                (FaiSuspended (PyStr w) (PyStr (join (sorted w))) s'))
      ∧ collect src_next k' s' = Some (items', Exhausted)
      ∧ k' < k
      ∧ Forall word_or_none items'
      ∧ List.filter (nonempty_anagram_of w) items
        = v :: List.filter (nonempty_anagram_of w) items'.
Proof.
  revert s items fuel.
  induction k as [|k IH]; intros s items fuel Hsrc Hwords Hle; [done|].
  destruct fuel as [|fuel]; [lia|].
  cbn [collect] in Hsrc.
  destruct (src_next s) as [c s1| |err] eqn:Hs; [| |done].
  - destruct (collect src_next k s1) as [[items1 e1]|] eqn:Hs1; [|done].
    injection Hsrc as <- ->.
    apply Forall_cons in Hwords as [Hc Hwords1].
    rewrite (fai_loop_step w fuel s s1 c Hs Hc). cbn [List.filter].
    destruct (nonempty_anagram_of w c).
    + right. exists c, s1, k, items1. split_and!; [done|done|lia|done|done].
    + destruct (IH s1 items1 fuel Hs1 Hwords1 ltac:(lia))
        as [[Hnil Hstop]|(v & s' & k' & items' & ? & ? & ? & ? & ?)].
      * by left.
      * right. exists v, s', k', items'.
        split_and!; [done|done|lia|done|done].
  - injection Hsrc as <-. left. cbn [fai_loop]. by rewrite Hs.
Qed.

Lemma print_all_over (w : string) (k : nat) (s : S) (items : list pyval)
    (fuel n : nat) :
  collect src_next k s = Some (items, Exhausted) →
  Forall word_or_none items →
  k ≤ fuel → k ≤ n →
  print_all (fai_next src_next fuel) n
    (FaiSuspended (PyStr w) (PyStr (join (sorted w))) s)
  = Some (List.filter (nonempty_anagram_of w) items, Exhausted).
Proof.
  revert s items n. induction (lt_wf k) as [k _ IH].
  intros s items n Hsrc Hwords Hfuel Hn.
  destruct k as [|k]; [done|]. destruct n as [|n]; [lia|].
  cbn [print_all fai_next].
  destruct (fai_loop_over w (Datatypes.S k) s items fuel Hsrc Hwords Hfuel)
    as [[-> ->]|(v & s' & k' & items' & -> & Hsrc' & Hlt & Hwords' & ->)];
    [done|].
  by rewrite (IH k' Hlt s' items' n Hsrc' Hwords') by lia.
Qed.
End over_source.

Lemma collect_list_next (items : list pyval) :
  collect list_next (S (length items)) items = Some (items, Exhausted).
Proof.
  induction items as [|c rest IH]; [done|].
  change (collect list_next (S (length (c :: rest))) (c :: rest))
    with (match collect list_next (S (length rest)) rest with
          | Some (vs, e) => Some (c :: vs, e)
          | None => None
          end).
  by rewrite IH.
Qed.

(** X12: [find_anagrams] gives the same anagrams whether the candidates
    come as a list or are pulled from an iterator over the same items. *)
Theorem find_anagrams_list_or_iterator (w : string) (cands : list pyval) :
  Forall word_or_none cands →
  ∃ g g' out,
    find_anagrams (PyStr w) (Some cands) = Ok g
    ∧ find_anagrams_over (PyStr w) (Some cands) = Ok g'
    ∧ collect fa_next (S (length cands)) g = Some (out, Exhausted)
    ∧ print_all (fai_next list_next (S (length cands))) (S (length cands)) g'
      = Some (out, Exhausted).
Proof.
  intros Hwords.
  exists (FaCreated (PyStr w) (Some cands)),
    (FaiCreated (PyStr w) (Some cands)),
    (List.filter (nonempty_anagram_of w) cands).
  split_and!; [done|done| |].
  - exact (fa_loop_collect w cands (S (length cands)) Hwords ltac:(lia)).
  - exact (print_all_over list_next w (S (length cands)) cands cands
             (S (length cands)) (S (length cands))
             (collect_list_next cands) Hwords ltac:(lia) ltac:(lia)).
Qed.

Lemma find_anagrams_list_or_iterator_witness :
  ∃ g g' out,
    find_anagrams (PyStr "time") (Some [PyStr "emit"; PyNone; PyStr "mite"])
    = Ok g
    ∧ find_anagrams_over (PyStr "time")
        (Some [PyStr "emit"; PyNone; PyStr "mite"]) = Ok g'
    ∧ collect fa_next 4 g = Some (out, Exhausted)
    ∧ print_all (fai_next list_next 4) 4 g' = Some (out, Exhausted).
Proof.
  apply (find_anagrams_list_or_iterator "time"
           [PyStr "emit"; PyNone; PyStr "mite"]).
  repeat constructor.
Defined.

Lemma lw_collect_created (fs : gmap string string)
    (filepath content : string) :
  fs !! filepath = Some content →
  collect (lw_next fs) (S (length (file_lines content))) (LwCreated filepath)
  = Some (PyStr ∘ rstrip <$> file_lines content, Exhausted).
Proof.
  intros Hfs.
  rewrite <- (lw_loop_collect fs content (S (length (file_lines content))))
    by lia.
  simpl. by rewrite Hfs.
Qed.

Lemma Forall_word_or_none_lines (ls : list string) :
  Forall word_or_none (PyStr ∘ rstrip <$> ls).
Proof. by apply Forall_fmap, Forall_true. Qed.

Lemma main_readable (fs : gmap string string) (fuel : nat)
    (word filepath content : string) :
  fs !! filepath = Some content →
  length (file_lines content) < fuel →
  main fs fuel word filepath
  = Some (List.filter (nonempty_anagram_of word)
            (PyStr ∘ rstrip <$> file_lines content), Exhausted).
Proof.
  intros Hfs Hlt.
  destruct fuel as [|fuel]; [lia|].
  exact (print_all_over (lw_next fs) word
           (S (length (file_lines content))) (LwCreated filepath) _
           (S fuel) (S fuel) (lw_collect_created fs _ _ Hfs)
           (Forall_word_or_none_lines _) ltac:(lia) ltac:(lia)).
Qed.

Lemma main_missing (fs : gmap string string) (fuel : nat)
    (word filepath : string) :
  fs !! filepath = None →
  main fs (S fuel) word filepath = Some ([], Failed IOError).
Proof.
  intros Hfs. unfold main. cbn. by rewrite Hfs.
Qed.

(** X13: for a readable word file, [main] prints exactly the lines of the
    file, stripped of their trailing whitespace, that are non-empty
    anagrams of the word, in the order of the file and with their
    repetitions, and ends normally. *)
Theorem main_prints_anagrams_of_file
    (fs : gmap string string) (word filepath content : string) :
  fs !! filepath = Some content →
  ∀ extra,
    main fs (S (length (file_lines content) + extra)) word filepath
    = Some (List.filter (nonempty_anagram_of word)
              (PyStr ∘ rstrip <$> file_lines content), Exhausted).
Proof. intros Hfs extra. apply (main_readable _ _ _ _ _ Hfs). lia. Qed.

Lemma main_prints_anagrams_of_file_witness :
  let content :=
    "care " +:+ String newline ("rack" +:+ String newline
      (String newline ("race" +:+ String newline "acre"))) in
  main {[ "words" := content ]} 6 "acre" "words"
  = Some ([PyStr "care"; PyStr "race"; PyStr "acre"], Exhausted).
Proof.
  intros content.
  assert (({[ "words" := content ]} : gmap string string) !! "words"
          = Some content) as Hfs by (vm_compute; reflexivity).
  etrans; [exact (main_prints_anagrams_of_file _ "acre" _ _ Hfs 0)|].
  vm_compute. reflexivity.
Defined.

(** X14: when the word file cannot be opened, [main] prints nothing and
    ends with the [IOError] of the first read. *)
Theorem main_missing_file
    (fs : gmap string string) (word filepath : string) (fuel : nat) :
  fs !! filepath = None →
  main fs (S fuel) word filepath = Some ([], Failed IOError).
Proof. apply main_missing. Qed.

Lemma main_missing_file_witness :
  main ∅ 1 "time" "test_words_missing" = Some ([], Failed IOError).
Proof.
  apply (main_missing_file ∅ "time" "test_words_missing" 0).
  vm_compute. reflexivity.
Defined.

(** X15: called with anything but two arguments, the script prints the
    usage message and nothing else, and does not read any file: the
    outcome is the same on every file system. *)
Theorem script_usage (fs : gmap string string) (fuel : nat)
    (argv : list string) :
  length argv ≠ 3 →
  script fs fuel argv = Some ([PyStr usage_msg], Exhausted).
Proof.
  intros Hlen. unfold script.
  destruct argv as [|a0 [|a1 [|a2 [|a3 rest]]]]; try done.
Qed.

Lemma script_usage_witness :
  script ∅ 0 ["find_anagrams.py"; "time"]
  = Some ([PyStr usage_msg], Exhausted).
Proof.
  apply (script_usage ∅ 0 ["find_anagrams.py"; "time"]). simpl. lia.
Defined.

(** X16: the script always comes to an end, and the only exception that
    can end it is the [IOError] of a word file that cannot be opened: its
    word argument is a string, so neither the [ValueError] nor the
    [TypeError] of [find_anagrams] and [sort_word] can occur. *)
Theorem script_fails_only_with_ioerror
    (fs : gmap string string) (argv : list string) :
  ∃ fuel out e,
    script fs fuel argv = Some (out, e)
    ∧ (e = Exhausted ∨ e = Failed IOError).
Proof.
  destruct (decide (length argv = 3)) as [Hlen|Hlen].
  - destruct argv as [|a0 [|word [|filepath [|a3 rest]]]]; try done.
    cbn [script]. destruct (fs !! filepath) as [content|] eqn:Hfs.
    + exists (S (length (file_lines content))). do 2 eexists. split.
      * apply (main_readable _ _ _ _ _ Hfs). lia.
      * by left.
    + exists 1. do 2 eexists. split.
      * by apply main_missing.
      * by right.
  - exists 0. do 2 eexists. split.
    + unfold script.
      by destruct argv as [|a0 [|a1 [|a2 [|a3 rest]]]].
    + by left.
Qed.

(** X17: two words have the same set of permutations exactly when each
    is a rearrangement of the characters of the other. *)
Theorem get_permutations_eq_iff_rearrangement (a b : string) :
  get_permutations (PyStr a) = get_permutations (PyStr b)
  ↔ list_ascii_of_string a ≡ₚ list_ascii_of_string b.
Proof.
  split.
  - intros [= Heq].
    assert (a ∈ (list_to_set
                   (join <$> itertools.permutations (list_ascii_of_string b))
                  : gset string)) as Hin.
    { rewrite <- Heq. by apply elem_of_join_permutations. }
    by apply elem_of_join_permutations in Hin.
  - intros Hp. simpl. do 2 f_equal. apply set_eq. intros s.
    rewrite !elem_of_join_permutations. by rewrite Hp.
Qed.
